(** * Kaetram-Open: the server-side [Entity] class and the client's [Audio]

    A shallow embedding of [class Entity] (server/ts/game/entity/entity.ts):
    the grid predicates, the two hide lists ([invisibles], keyed by instance,
    and [invisiblesIds], a plain array of ids), the position setters and the
    state snapshot sent to clients; and of the part of the client's
    [class Audio] that keeps the tables of sound names and the channels of
    each sound.

    Conventions.
    - Grid coordinates and template ids are integers ([Z]); on integers in
      the exactly representable range the JavaScript operations used here
      ([-], [Math.abs], [<], [<=], [!==]) agree with the ones on [Z].
    - Fields declared [any] that the code only tests for truthiness and
      passes on ([specialState], [customScale], ...) hold a [JsVal].
    - Objects have identity: an entity lives at a location of a store, and a
      reference to it is that location.  Methods that only read or write
      fields of [this] are first given on the record; the store versions
      apply them at the receiver's location.
    - [invisibles] is the object literal [{}] used as a map, and so are the
      tables of [Audio].  Only their own properties are modelled: instance
      identifiers and sound names are taken not to collide with the
      property names every object inherits. *)

From Stdlib Require Import ZArith QArith.QArith_base Lia.
From stdpp Require Import gmap strings list.

Local Open Scope string_scope.
Local Open Scope list_scope.
Local Open Scope Z_scope.

(** ** JavaScript values *)

(** A number is a double: finite values are kept as exact rationals. *)
Inductive JsNumber : Type :=
  | NaN
  | Infinity (negative : bool)
  | Finite (q : Q).

Inductive JsVal : Type :=
  | VUndefined
  | VNull
  | VBool (b : bool)
  | VNum (n : JsNumber)
  | VStr (s : string).

Definition ofZ (z : Z) : JsVal := VNum (Finite (inject_Z z)).

(** [ToBoolean]: what [if (v)] tests. *)
Definition toBoolean (v : JsVal) : bool :=
  match v with
  | VUndefined | VNull => false
  | VBool b => b
  | VNum NaN => false
  | VNum (Infinity _) => true
  | VNum (Finite q) => negb (Qnum q =? 0)
  | VStr s => negb (String.eqb s "")
  end.

(** [v === 'literal'] *)
Definition strictEqStr (v : JsVal) (lit : string) : bool :=
  match v with
  | VStr s => String.eqb s lit
  | _ => false
  end.

(** The outcome of a call: a returned value or a thrown [Error]. *)
Inductive Completion (A : Type) : Type :=
  | Return (a : A)
  | Throw (message : string).
Arguments Return {A} a.
Arguments Throw {A} message.

(** Object identity and function handles. *)
Definition loc : Type := positive.
Definition Callback : Type := nat.

(** A plain object built by a literal and property assignments, in
    insertion order. *)
Definition JsObject : Type := list (string * JsVal).

Fixpoint getField (key : string) (o : JsObject) : option JsVal :=
  match o with
  | [] => None
  | (k, v) :: rest => if String.eqb k key then Some v else getField key rest
  end.

(** [o.key = v]: overwrite in place, or append a new property. *)
Fixpoint setField (key : string) (v : JsVal) (o : JsObject) : JsObject :=
  match o with
  | [] => [(key, v)]
  | (k, w) :: rest =>
      if String.eqb k key then (k, v) :: rest else (k, w) :: setField key v rest
  end.

Definition hasField (key : string) (o : JsObject) : bool :=
  match getField key o with Some _ => true | None => false end.

(** ** Arrays: [push], [indexOf], [splice(index, 1)] *)

Definition push {A} (l : list A) (a : A) : list A := l ++ [a].

(** Index of the first element equal to [a], or [-1]. *)
Fixpoint indexOf (l : list Z) (a : Z) : Z :=
  match l with
  | [] => -1
  | b :: rest =>
      if b =? a then 0
      else let i := indexOf rest a in if i =? -1 then -1 else i + 1
  end.

(** [l.splice(index, 1)] for [index >= 0]: drop the element at [index]. *)
Definition splice1 {A} (l : list A) (index : Z) : list A :=
  take (Z.to_nat index) l ++ drop (S (Z.to_nat index)) l.

(** ** The class *)

Module Entity.

Record t : Type := mk {
  id : Z;
  type : string;
  instance : string;
  x : Z;
  y : Z;
  oldX : Z;
  oldY : Z;
  setPositionCallback : option Callback;
  invisibles : gmap string loc;
  invisiblesIds : list Z;
  specialState : JsVal;
  customScale : JsVal;
  combat : JsVal;
  dead : bool;
  recentRegions : list JsVal;
  roaming : JsVal
}.

(** [constructor(id, type, instance, x, y)] *)
Definition new (id : Z) (type instance : string) (x y : Z) : t :=
  {| id := id; type := type; instance := instance; x := x; y := y;
     oldX := x; oldY := y;
     setPositionCallback := None;
     invisibles := ∅;
     invisiblesIds := [];
     specialState := VUndefined; customScale := VUndefined;
     combat := VNull; dead := false; recentRegions := [];
     roaming := VUndefined |}.

(** Field writes, one per assigned field. *)
Definition set_x (v : Z) (e : t) : t :=
  mk (id e) (type e) (instance e) v (y e) (oldX e) (oldY e)
     (setPositionCallback e) (invisibles e) (invisiblesIds e)
     (specialState e) (customScale e) (combat e) (dead e)
     (recentRegions e) (roaming e).

Definition set_y (v : Z) (e : t) : t :=
  mk (id e) (type e) (instance e) (x e) v (oldX e) (oldY e)
     (setPositionCallback e) (invisibles e) (invisiblesIds e)
     (specialState e) (customScale e) (combat e) (dead e)
     (recentRegions e) (roaming e).

Definition set_oldX (v : Z) (e : t) : t :=
  mk (id e) (type e) (instance e) (x e) (y e) v (oldY e)
     (setPositionCallback e) (invisibles e) (invisiblesIds e)
     (specialState e) (customScale e) (combat e) (dead e)
     (recentRegions e) (roaming e).

Definition set_oldY (v : Z) (e : t) : t :=
  mk (id e) (type e) (instance e) (x e) (y e) (oldX e) v
     (setPositionCallback e) (invisibles e) (invisiblesIds e)
     (specialState e) (customScale e) (combat e) (dead e)
     (recentRegions e) (roaming e).

Definition set_setPositionCallback (v : option Callback) (e : t) : t :=
  mk (id e) (type e) (instance e) (x e) (y e) (oldX e) (oldY e)
     v (invisibles e) (invisiblesIds e)
     (specialState e) (customScale e) (combat e) (dead e)
     (recentRegions e) (roaming e).

Definition set_invisibles (v : gmap string loc) (e : t) : t :=
  mk (id e) (type e) (instance e) (x e) (y e) (oldX e) (oldY e)
     (setPositionCallback e) v (invisiblesIds e)
     (specialState e) (customScale e) (combat e) (dead e)
     (recentRegions e) (roaming e).

Definition set_invisiblesIds (v : list Z) (e : t) : t :=
  mk (id e) (type e) (instance e) (x e) (y e) (oldX e) (oldY e)
     (setPositionCallback e) (invisibles e) v
     (specialState e) (customScale e) (combat e) (dead e)
     (recentRegions e) (roaming e).

Definition set_specialState (v : JsVal) (e : t) : t :=
  mk (id e) (type e) (instance e) (x e) (y e) (oldX e) (oldY e)
     (setPositionCallback e) (invisibles e) (invisiblesIds e)
     v (customScale e) (combat e) (dead e)
     (recentRegions e) (roaming e).

Definition set_customScale (v : JsVal) (e : t) : t :=
  mk (id e) (type e) (instance e) (x e) (y e) (oldX e) (oldY e)
     (setPositionCallback e) (invisibles e) (invisiblesIds e)
     (specialState e) v (combat e) (dead e)
     (recentRegions e) (roaming e).

(** *** Grid predicates *)

Definition getDistance (this entity : t) : Z :=
  let x := Z.abs (Entity.x this - Entity.x entity) in
  let y := Z.abs (Entity.y this - Entity.y entity) in
  if x >? y then x else y.

Definition getCoordDistance (this : t) (toX toY : Z) : Z :=
  let x := Z.abs (Entity.x this - toX) in
  let y := Z.abs (Entity.y this - toY) in
  if x >? y then x else y.

Definition isNear (this entity : t) (distance : Z) : bool :=
  let dx := Z.abs (x this - x entity) in
  let dy := Z.abs (y this - y entity) in
  (dx <=? distance) && (dy <=? distance).

(** [entity && this.getDistance(entity) < 2].  The argument may be
    [null]/[undefined] ([None]); the source then returns that falsy value
    itself, which every caller uses as a condition: [false] here. *)
Definition isSurrounding (this : t) (entity : option t) : bool :=
  match entity with
  | None => false
  | Some entity => getDistance this entity <? 2
  end.

(** [this.isSurrounding(entity) && !(entity.x !== this.x && entity.y !== this.y)];
    the right operand is evaluated only when the left one is truthy, so
    never on a missing [entity]. *)
Definition isNonDiagonal (this : t) (entity : option t) : bool :=
  if isSurrounding this entity then
    match entity with
    | Some entity =>
        negb (negb (x entity =? x this) && negb (y entity =? y this))
    | None => false
    end
  else false.

(** *** Type tests *)

Definition isMob (this : t) : bool := String.eqb (type this) "mob".
Definition isNPC (this : t) : bool := String.eqb (type this) "npc".
Definition isItem (this : t) : bool := String.eqb (type this) "item".
Definition isPlayer (this : t) : bool := String.eqb (type this) "player".

(** *** Position writes that touch [this] only *)

Definition updatePosition (this : t) : t :=
  let this := set_oldX (x this) this in
  set_oldY (y this) this.

Definition onSetPosition (callback : option Callback) (this : t) : t :=
  set_setPositionCallback callback this.

(** *** Hide lists *)

(** [this.invisibles[entity.instance] = entity]: the stored value is the
    reference [ref] to [entity]. *)
Definition addInvisible (this : t) (ref : loc) (entity : t) : t :=
  set_invisibles (<[instance entity := ref]> (invisibles this)) this.

Definition addInvisibleId (this : t) (entityId : Z) : t :=
  set_invisiblesIds (push (invisiblesIds this) entityId) this.

Definition removeInvisible (this : t) (entity : t) : t :=
  set_invisibles (delete (instance entity) (invisibles this)) this.

Definition removeInvisibleId (this : t) (entityId : Z) : t :=
  let index := indexOf (invisiblesIds this) entityId in
  if index >? -1 then set_invisiblesIds (splice1 (invisiblesIds this) index) this
  else this.


Definition hasInvisible (this entity : t) : bool :=
  match invisibles this !! Entity.instance entity with
  | Some _ => true
  | None => false
  end.

Definition hasInvisibleId (this : t) (entityId : Z) : bool :=
  indexOf (invisiblesIds this) entityId >? -1.

(** *** Snapshot *)

(** [Mobs], [NPCs] and [Items] (util/mobs, util/npcs, util/items) are not
    part of the class: each is taken as a pair of lookups from a template
    id. *)
Record Registry : Type := {
  idToString : Z -> JsVal;
  idToName : Z -> JsVal
}.

(** The [switch] falls through to an implicit [undefined]. *)
Definition getNameColour (this : t) : JsVal :=
  let s := specialState this in
  if strictEqStr s "boss" then VStr "#660033"
  else if strictEqStr s "miniboss" then VStr "#cc3300"
  else if strictEqStr s "achievementNpc" then VStr "#669900"
  else if strictEqStr s "area" then VStr "#00aa00"
  else if strictEqStr s "questNpc" then VStr "#6699ff"
  else if strictEqStr s "questMob" then VStr "#0099cc"
  else VUndefined.

Definition getState (Mobs NPCs Items : Registry) (this : t) : JsObject :=
  let string :=
    if isMob this then idToString Mobs (id this)
    else if isNPC this then idToString NPCs (id this)
    else idToString Items (id this) in
  let name :=
    if isMob this then idToName Mobs (id this)
    else if isNPC this then idToName NPCs (id this)
    else idToName Items (id this) in
  let data : JsObject :=
    [ ("type", VStr (type this));
      ("id", VStr (instance this));
      ("string", string);
      ("name", name);
      ("x", ofZ (x this));
      ("y", ofZ (y this)) ] in
  let data :=
    if toBoolean (specialState this)
    then setField "nameColour" (getNameColour this) data else data in
  let data :=
    if toBoolean (customScale this)
    then setField "customScale" (customScale this) data else data in
  data.

(** *** Capability hook *)

Definition canAggro {Player : Type} (this : t) (player : Player)
  : Completion JsVal :=
  Throw "Method not implemented.".

End Entity.

(** Modelled from the spec: the visibility predicate [visibleTo(observer,
    target) = NOT isHidden(target)], which the class does not define; it
    combines the two membership tests of the class, by instance and by
    template id. *)
Definition visibleTo (observer target : Entity.t) : bool :=
  negb (Entity.hasInvisible observer target)
  && negb (Entity.hasInvisibleId observer (Entity.id target)).

(** ** The store *)

(** Live entities by reference.  A method call [o.m(...)] on the reference
    [this] rewrites the record stored there. *)
Module World.

Abbreviation Store := (gmap loc Entity.t).

Definition addInvisible (this entity : loc) (σ : Store) : Store :=
  match σ !! entity with
  | Some e => alter (fun t => Entity.addInvisible t entity e) this σ
  | None => σ
  end.

Definition removeInvisible (this entity : loc) (σ : Store) : Store :=
  match σ !! entity with
  | Some e => alter (fun t => Entity.removeInvisible t e) this σ
  | None => σ
  end.

Definition updatePosition (this : loc) (σ : Store) : Store :=
  alter Entity.updatePosition this σ.

Definition onSetPosition (this : loc) (callback : option Callback) (σ : Store)
  : Store :=
  alter (Entity.onSetPosition callback) this σ.

(** [run cb σ] is the store left by calling the function [cb] (no
    arguments) in store [σ]; what a callback does is up to whoever
    registered it. *)
Definition setPosition (run : Callback -> Store -> Store)
    (this : loc) (x y : Z) (σ : Store) : Store :=
  let σ := alter (Entity.set_x x) this σ in
  let σ := alter (Entity.set_y y) this σ in
  match σ !! this ≫= Entity.setPositionCallback with
  | Some callback => run callback σ
  | None => σ
  end.

End World.

(** ** The client's [Audio] class *)

(** [class Audio] keeps, per sound name, a list of [<audio>] elements
    (the channels) and two tables of known names with a loaded flag.  The
    tables and [audibles] are object literals used as maps, under the same
    convention on keys as [invisibles].  Playback itself ([play],
    [update], the fades) runs on timers and element events and is not
    modelled; the fields only those methods use ([song], [songName],
    [newSong], [game]) are left out of the record. *)
Module Audio.

(** What the class asks of the document and of an [<audio>] element.
    Listeners registered on an element run later, on its events, outside
    the call that registers them. *)
Class Dom (Element : Type) : Type := {
  createElement : string -> Element;
  addEventListener : string -> Element -> Element;
  set_preload : string -> Element -> Element;
  setAttribute : string -> string -> Element -> Element;
  set_src : string -> Element -> Element;
  element_load : Element -> Element;
  cloneNode : bool -> Element -> Element;
  ended : Element -> bool;
  paused : Element -> bool;
  set_currentTime : JsVal -> Element -> Element
}.

(** An entry of [audibles] is an array of channels, or [null] once the
    element failed to load. *)
Record t (Element : Type) : Type := mk {
  audibles : gmap string (option (list Element));
  format : string;
  enabled : bool;
  music : gmap string bool;
  sounds : gmap string bool
}.
Arguments mk {Element}.
Arguments audibles {Element}.
Arguments format {Element}.
Arguments enabled {Element}.
Arguments music {Element}.
Arguments sounds {Element}.

Definition set_audibles {Element}
    (v : gmap string (option (list Element))) (a : t Element) : t Element :=
  mk v (format a) (enabled a) (music a) (sounds a).

Definition set_music {Element} (v : gmap string bool) (a : t Element)
  : t Element :=
  mk (audibles a) (format a) (enabled a) v (sounds a).

Definition set_sounds {Element} (v : gmap string bool) (a : t Element)
  : t Element :=
  mk (audibles a) (format a) (enabled a) (music a) v.

(** [name in table] *)
Definition hasKey {V} (table : gmap string V) (name : string) : bool :=
  match table !! name with Some _ => true | None => false end.

Definition load {Element} (this : t Element) : t Element :=
  let this :=
    set_music
      (list_to_map
         [ ("codingroom", false); ("smalltown", false); ("village", false);
           ("beach", false); ("spookyship", false);
           ("meadowofthepast", false) ]) this in
  set_sounds
    (list_to_map
       [ ("loot", false); ("hit1", false); ("hit2", false); ("hurt", false);
         ("heal", false); ("chat", false); ("revive", false);
         ("death", false); ("firefox", false); ("achievement", false);
         ("kill1", false); ("kill2", false); ("noloot", false);
         ("teleport", false); ("chest", false); ("npc", false);
         ("npc-end", false) ]) this.

(** [constructor(game)] *)
Definition new {Element} : t Element :=
  load {| audibles := ∅; format := "mp3"; enabled := true;
          music := ∅; sounds := ∅ |}.

(** [_.times(n, f)]: [f] is called [n] times, never for [n <= 0]. *)
Definition times {S} (n : Z) (f : S -> S) (s : S) : S :=
  Nat.iter (Z.to_nat n) f s.

(** [parse(path, name, channels, callback)].  The optional [callback] is
    only handed to the ["canplaythrough"] listener. *)
Definition parse {Element} `{Dom Element} (path name : string) (channels : Z)
    (this : t Element) : t Element :=
  let fullPath := String.append path
                    (String.append name (String.append "." (format this))) in
  let sound := createElement "audio" in
  let sound := addEventListener "canplaythrough" sound in
  let sound := addEventListener "error" sound in
  let sound := set_preload "auto" sound in
  let sound := setAttribute "autobuffer" "true" sound in
  let sound := set_src fullPath sound in
  let sound := element_load sound in
  let this := set_audibles (<[name := Some [sound]]> (audibles this)) this in
  let this :=
    times (channels - 1)
      (fun this =>
         set_audibles
           (alter (fmap (fun l => push l (cloneNode true sound))) name
              (audibles this)) this) this in
  if hasKey (music this) name
  then set_music (<[name := true]> (music this)) this
  else if hasKey (sounds this) name
  then set_sounds (<[name := true]> (sounds this)) this
  else this.


(** [_.find(list, predicate)], as the index of the element found. *)
Fixpoint findIndex {A} (predicate : A -> bool) (l : list A) : option nat :=
  match l with
  | [] => None
  | a :: rest =>
      if predicate a then Some 0%nat else S <$> findIndex predicate rest
  end.

(** [get(name)].  The song returned is a reference to one of the
    channels of [name], given by its index; [None] is the [null] of the
    first line, or the [undefined] that destructuring an empty array
    gives. *)
Definition get {Element} `{Dom Element} (name : string) (this : t Element)
  : option nat * t Element :=
  match audibles this !! name with
  | None | Some None => (None, this)
  | Some (Some channels) =>
      let first := match channels with [] => None | _ :: _ => Some 0%nat end in
      match findIndex (fun audible => ended audible || paused audible) channels with
      | Some i =>
          match channels !! i with
          | Some song =>
              if ended song
              then (Some i,
                    set_audibles
                      (<[name := Some (<[i := set_currentTime (ofZ 0) song]>
                                         channels)]> (audibles this)) this)
              else (first, this)
          | None => (first, this)
          end
      | None => (first, this)
      end
  end.

End Audio.

(** ** Sample entities *)

Definition cell (x y : Z) : Entity.t := Entity.new 0 "mob" "cell" x y.

Definition observer : Entity.t := Entity.new 1 "player" "p-1" 0 0.

Definition skeleton : Entity.t :=
  Entity.set_specialState (VStr "boss") (Entity.new 5 "mob" "m-42" 10 12).

(** [observer] at reference 1 and [skeleton] at reference 2. *)
Definition world : World.Store :=
  <[1%positive := observer]> (<[2%positive := skeleton]> ∅).

(** Lookup tables with the one mob entry of the snapshot example, and
    tables without entries. *)
Definition mobs : Entity.Registry :=
  {| Entity.idToString := fun id => if id =? 5 then VStr "skeleton" else VNull;
     Entity.idToName := fun id => if id =? 5 then VStr "Skeleton" else VNull |}.

Definition noEntries : Entity.Registry :=
  {| Entity.idToString := fun _ => VNull; Entity.idToName := fun _ => VNull |}.

(** A callback that commits the move of the entity at reference 1. *)
Definition commitFirst (callback : Callback) (σ : World.Store) : World.Store :=
  World.updatePosition 1%positive σ.

(** A stand-in for the document: an element is its source with the two
    playback flags and the playback position; a new element is paused at
    the start. *)
Record Clip : Type := {
  clipSrc : string;
  clipEnded : bool;
  clipPaused : bool;
  clipTime : JsVal
}.

#[local] Instance clipDom : Audio.Dom Clip := {|
  Audio.createElement := fun _ =>
    {| clipSrc := ""; clipEnded := false; clipPaused := true;
       clipTime := ofZ 0 |};
  Audio.addEventListener := fun _ c => c;
  Audio.set_preload := fun _ c => c;
  Audio.setAttribute := fun _ _ c => c;
  Audio.set_src := fun src c =>
    {| clipSrc := src; clipEnded := clipEnded c; clipPaused := clipPaused c;
       clipTime := clipTime c |};
  Audio.element_load := fun c => c;
  Audio.cloneNode := fun _ c => c;
  Audio.ended := clipEnded;
  Audio.paused := clipPaused;
  Audio.set_currentTime := fun v c =>
    {| clipSrc := clipSrc c; clipEnded := clipEnded c;
       clipPaused := clipPaused c; clipTime := v |}
|}.

Definition playing : Clip :=
  {| clipSrc := "audio/sounds/hit1.mp3"; clipEnded := false;
     clipPaused := false; clipTime := ofZ 1 |}.

Definition idle : Clip :=
  {| clipSrc := "audio/sounds/hit1.mp3"; clipEnded := false;
     clipPaused := true; clipTime := ofZ 0 |}.

Definition finished : Clip :=
  {| clipSrc := "audio/sounds/hit1.mp3"; clipEnded := true;
     clipPaused := true; clipTime := ofZ 2 |}.

(** An [Audio] whose ["hit1"] has the given channels. *)
Definition mixer (channels : list Clip) : Audio.t Clip :=
  Audio.set_audibles {[ "hit1" := Some channels ]} Audio.new.

(** * Properties *)

(** ** Grid predicates *)

Lemma getDistance_max (a b : Entity.t) :
  Entity.getDistance a b
  = Z.max (Z.abs (Entity.x a - Entity.x b)) (Z.abs (Entity.y a - Entity.y b)).
Proof.
  unfold Entity.getDistance. cbv zeta.
  destruct (Z.gtb_spec (Z.abs (Entity.x a - Entity.x b))
                       (Z.abs (Entity.y a - Entity.y b))); lia.
Qed.

Lemma getDistance_sym (a b : Entity.t) :
  Entity.getDistance a b = Entity.getDistance b a.
Proof. rewrite !getDistance_max. lia. Qed.

Lemma getDistance_self (a : Entity.t) : Entity.getDistance a a = 0.
Proof. rewrite getDistance_max. lia. Qed.

Lemma isNear_axes (a b : Entity.t) (r : Z) :
  Entity.isNear a b r = true
  <-> Z.abs (Entity.x a - Entity.x b) <= r /\ Z.abs (Entity.y a - Entity.y b) <= r.
Proof.
  unfold Entity.isNear. cbv zeta.
  rewrite andb_true_iff, !Z.leb_le. reflexivity.
Qed.

Lemma isSurrounding_distance (a b : Entity.t) :
  Entity.isSurrounding a (Some b) = true <-> Entity.getDistance a b < 2.
Proof. simpl. apply Z.ltb_lt. Qed.

(** C5: [isNear(a, b, r)] is true exactly when the Chebyshev distance
    computed by [getDistance], the larger of the two absolute axis deltas,
    is at most [r].  The equivalence needs no assumption on [r]; the
    radii [r >= 0] of the claim are a special case. *)
Theorem isNear_iff_distance (a b : Entity.t) (r : Z) :
  Entity.getDistance a b
  = Z.max (Z.abs (Entity.x a - Entity.x b)) (Z.abs (Entity.y a - Entity.y b))
  /\ (Entity.isNear a b r = true <-> Entity.getDistance a b <= r)
  /\ Entity.isNear a b r = (Entity.getDistance a b <=? r).
Proof.
  split; [apply getDistance_max|].
  assert (Hiff : Entity.isNear a b r = true <-> Entity.getDistance a b <= r).
  { rewrite isNear_axes, getDistance_max. lia. }
  split; [exact Hiff|].
  destruct (Entity.isNear a b r) eqn:Hn.
  - symmetry. apply Z.leb_le, Hiff. reflexivity.
  - symmetry. apply Z.leb_gt. apply Z.nle_gt. intros Hle.
    apply Hiff in Hle. discriminate.
Qed.

(** C6: [isNonDiagonal(a, b)] holds exactly when [isSurrounding(a, b)]
    holds (distance below 2) and the two entities share a column or a row;
    it is true on the same cell and false on the four diagonal
    neighbours. *)
Theorem isNonDiagonal_iff (a b : Entity.t) :
  (Entity.isNonDiagonal a (Some b) = true
   <-> Entity.isSurrounding a (Some b) = true
       /\ (Entity.x a = Entity.x b \/ Entity.y a = Entity.y b))
  /\ (Entity.isSurrounding a (Some b) = true <-> Entity.getDistance a b < 2)
  /\ (Entity.x a = Entity.x b -> Entity.y a = Entity.y b ->
      Entity.isNonDiagonal a (Some b) = true)
  /\ (Z.abs (Entity.x a - Entity.x b) = 1 ->
      Z.abs (Entity.y a - Entity.y b) = 1 ->
      Entity.isNonDiagonal a (Some b) = false).
Proof.
  assert (Hmain : Entity.isNonDiagonal a (Some b) = true
                  <-> Entity.isSurrounding a (Some b) = true
                      /\ (Entity.x a = Entity.x b \/ Entity.y a = Entity.y b)).
  { unfold Entity.isNonDiagonal.
    destruct (Entity.isSurrounding a (Some b)).
    - rewrite negb_true_iff, andb_false_iff, !negb_false_iff, !Z.eqb_eq.
      intuition congruence.
    - intuition discriminate. }
  split; [exact Hmain|].
  split; [apply isSurrounding_distance|].
  split.
  - intros Hx Hy. apply Hmain. split; [|left; exact Hx].
    apply isSurrounding_distance. rewrite getDistance_max. lia.
  - intros Hx Hy. apply not_true_is_false. intros Ht.
    apply Hmain in Ht. lia.
Qed.

Lemma isNonDiagonal_iff_witness :
  Entity.isNonDiagonal (cell 3 4) (Some (cell 3 4)) = true
  /\ Entity.isNonDiagonal (cell 3 4) (Some (cell 4 5)) = false
  /\ Entity.isNonDiagonal (cell 3 4) (Some (cell 3 5)) = true.
Proof.
  split; [|split].
  - apply (proj1 (proj2 (proj2 (isNonDiagonal_iff (cell 3 4) (cell 3 4)))));
      reflexivity.
  - apply (proj2 (proj2 (proj2 (isNonDiagonal_iff (cell 3 4) (cell 4 5)))));
      reflexivity.
  - apply (proj1 (isNonDiagonal_iff (cell 3 4) (cell 3 5))).
    split; [reflexivity | left; reflexivity].
Defined.

(** ** Arrays *)

Lemma indexOf_lower (l : list Z) (a : Z) : -1 <= indexOf l a.
Proof.
  induction l as [|b l IH]; simpl; [lia|].
  destruct (b =? a); [lia|].
  destruct (Z.eqb_spec (indexOf l a) (-1)); lia.
Qed.

Lemma indexOf_absent (l : list Z) (a : Z) : indexOf l a = -1 <-> a ∉ l.
Proof.
  induction l as [|b l IH]; simpl.
  - split; [intros _; apply not_elem_of_nil | reflexivity].
  - rewrite not_elem_of_cons.
    destruct (Z.eqb_spec b a) as [->|Hne].
    + split; [discriminate | intros [Hc _]; congruence].
    + pose proof (indexOf_lower l a).
      destruct (Z.eqb_spec (indexOf l a) (-1)) as [Heq|Hneq].
      * split; [intros _; split; [congruence | apply IH, Heq] | reflexivity].
      * split; [lia | intros [_ Hl]; apply IH in Hl; contradiction].
Qed.

Lemma indexOf_first (l r : list Z) (a : Z) :
  a ∉ l -> indexOf (l ++ a :: r) a = Z.of_nat (List.length l).
Proof.
  induction l as [|b l IH]; intros Hl; simpl.
  - rewrite Z.eqb_refl. reflexivity.
  - apply not_elem_of_cons in Hl as [Hne Hl].
    destruct (Z.eqb_spec b a) as [->|_]; [congruence|].
    rewrite (IH Hl).
    destruct (Z.eqb_spec (Z.of_nat (List.length l)) (-1)); lia.
Qed.

Lemma splice1_first {A} (l r : list A) (a : A) :
  splice1 (l ++ a :: r) (Z.of_nat (List.length l)) = l ++ r.
Proof.
  unfold splice1. rewrite Nat2Z.id.
  rewrite take_app_length.
  change (S (List.length l)) with (1 + List.length l)%nat.
  rewrite Nat.add_comm, <- drop_drop, drop_app_length. reflexivity.
Qed.

(** ** Hide list of template ids *)

Lemma hasInvisibleId_elem (e : Entity.t) (a : Z) :
  Entity.hasInvisibleId e a = true <-> a ∈ Entity.invisiblesIds e.
Proof.
  unfold Entity.hasInvisibleId.
  pose proof (indexOf_lower (Entity.invisiblesIds e) a).
  pose proof (indexOf_absent (Entity.invisiblesIds e) a) as Habs.
  rewrite Z.gtb_ltb, Z.ltb_lt.
  destruct (decide (a ∈ Entity.invisiblesIds e)) as [Hin|Hout].
  - split; [intros _; exact Hin|]. intros _.
    destruct (Z.eq_dec (indexOf (Entity.invisiblesIds e) a) (-1)) as [Heq|?]; [|lia].
    apply Habs in Heq. contradiction.
  - apply Habs in Hout. split; [lia | intros Hin; apply Habs in Hout; contradiction].
Qed.

Lemma hasInvisibleId_not_elem (e : Entity.t) (a : Z) :
  Entity.hasInvisibleId e a = false <-> a ∉ Entity.invisiblesIds e.
Proof.
  rewrite <- hasInvisibleId_elem.
  destruct (Entity.hasInvisibleId e a); split; congruence.
Qed.

Lemma invisiblesIds_addInvisibleId (e : Entity.t) (a : Z) :
  Entity.invisiblesIds (Entity.addInvisibleId e a) = Entity.invisiblesIds e ++ [a].
Proof. reflexivity. Qed.

Lemma set_invisiblesIds_twice (e : Entity.t) (v w : list Z) :
  Entity.set_invisiblesIds v (Entity.set_invisiblesIds w e)
  = Entity.set_invisiblesIds v e.
Proof. reflexivity. Qed.

(** Removing an id that occurs drops its first occurrence and nothing else. *)
Lemma removeInvisibleId_first (e : Entity.t) (l r : list Z) (a : Z) :
  Entity.invisiblesIds e = l ++ a :: r -> a ∉ l ->
  Entity.removeInvisibleId e a = Entity.set_invisiblesIds (l ++ r) e.
Proof.
  intros Heq Hl. unfold Entity.removeInvisibleId. cbv zeta.
  rewrite Heq, (indexOf_first l r a Hl).
  destruct (Z.gtb_spec (Z.of_nat (List.length l)) (-1)); [|lia].
  rewrite splice1_first. reflexivity.
Qed.

Lemma removeInvisibleId_absent (e : Entity.t) (a : Z) :
  a ∉ Entity.invisiblesIds e -> Entity.removeInvisibleId e a = e.
Proof.
  intros Hout. unfold Entity.removeInvisibleId. cbv zeta.
  apply indexOf_absent in Hout. rewrite Hout. reflexivity.
Qed.

Lemma set_invisiblesIds_same (e : Entity.t) :
  Entity.set_invisiblesIds (Entity.invisiblesIds e) e = e.
Proof. destruct e; reflexivity. Qed.

(** C10: when [id] does not occur in the owner's [invisiblesIds], two
    [addInvisibleId(id)] followed by one [removeInvisibleId(id)] leave
    [hasInvisibleId(id)] true (one occurrence is left); a second
    [removeInvisibleId(id)] makes it false and gives the owner back as it
    was. *)
Theorem removeInvisibleId_one_per_call (e : Entity.t) (a : Z) :
  Entity.hasInvisibleId e a = false ->
  let e2 := Entity.addInvisibleId (Entity.addInvisibleId e a) a in
  let e3 := Entity.removeInvisibleId e2 a in
  Entity.invisiblesIds e2 = Entity.invisiblesIds e ++ [a; a]
  /\ Entity.hasInvisibleId e3 a = true
  /\ Entity.invisiblesIds e3 = Entity.invisiblesIds e ++ [a]
  /\ Entity.hasInvisibleId (Entity.removeInvisibleId e3 a) a = false
  /\ Entity.removeInvisibleId e3 a = e.
Proof.
  intros Hout e2 e3. apply hasInvisibleId_not_elem in Hout.
  assert (H2 : Entity.invisiblesIds e2 = Entity.invisiblesIds e ++ a :: [a]).
  { subst e2. rewrite !invisiblesIds_addInvisibleId, <- app_assoc. reflexivity. }
  assert (H3 : e3 = Entity.set_invisiblesIds (Entity.invisiblesIds e ++ [a]) e).
  { subst e3. rewrite (removeInvisibleId_first e2 _ _ a H2 Hout). reflexivity. }
  assert (H4 : Entity.removeInvisibleId e3 a = e).
  { rewrite (removeInvisibleId_first e3 (Entity.invisiblesIds e) [] a).
    - rewrite H3, set_invisiblesIds_twice, app_nil_r.
      apply set_invisiblesIds_same.
    - rewrite H3. reflexivity.
    - exact Hout. }
  split; [exact H2|]. split.
  - apply hasInvisibleId_elem. rewrite H3. simpl.
    apply elem_of_app. right. apply list_elem_of_singleton. reflexivity.
  - split; [rewrite H3; reflexivity|].
    split; [|exact H4].
    rewrite H4. apply hasInvisibleId_not_elem, Hout.
Qed.

Lemma removeInvisibleId_one_per_call_witness :
  Entity.hasInvisibleId
    (Entity.removeInvisibleId
       (Entity.addInvisibleId (Entity.addInvisibleId observer 7) 7) 7) 7 = true.
Proof.
  apply (removeInvisibleId_one_per_call observer 7). reflexivity.
Defined.

(** C1, the claim as stated fails: on a fresh entity a second
    [addInvisibleId(7)] changes the state again, the array holds [7]
    twice, and after one [removeInvisibleId(7)] the id is still hidden. *)
Lemma addInvisibleId_not_idempotent :
  Entity.addInvisibleId (Entity.addInvisibleId observer 7) 7
  <> Entity.addInvisibleId observer 7
  /\ Entity.invisiblesIds
       (Entity.addInvisibleId (Entity.addInvisibleId observer 7) 7) = [7; 7]
  /\ Entity.hasInvisibleId
       (Entity.removeInvisibleId
          (Entity.addInvisibleId (Entity.addInvisibleId observer 7) 7) 7) 7
     = true.
Proof.
  split; [|split]; [|reflexivity|reflexivity].
  intros Heq. apply (f_equal Entity.invisiblesIds) in Heq. discriminate Heq.
Qed.

(** C1, amended: [addInvisibleId] appends on every call.  Membership is
    stable ([hasInvisibleId] is true after one call and after two), but
    the second call adds one more occurrence, the state differs from the
    state after one call, and one [removeInvisibleId] after two calls
    leaves the id hidden. *)
Theorem addInvisibleId_appends (e : Entity.t) (a : Z) :
  let e1 := Entity.addInvisibleId e a in
  let e2 := Entity.addInvisibleId e1 a in
  Entity.invisiblesIds e1 = Entity.invisiblesIds e ++ [a]
  /\ Entity.invisiblesIds e2 = Entity.invisiblesIds e1 ++ [a]
  /\ Entity.hasInvisibleId e1 a = true
  /\ Entity.hasInvisibleId e2 a = true
  /\ e2 <> e1
  /\ Entity.hasInvisibleId (Entity.removeInvisibleId e2 a) a = true.
Proof.
  intros e1 e2.
  split; [reflexivity|]. split; [reflexivity|].
  split; [apply hasInvisibleId_elem; subst e1; simpl; set_solver|].
  split; [apply hasInvisibleId_elem; subst e2 e1; simpl; set_solver|].
  split.
  - intros Heq. apply (f_equal Entity.invisiblesIds) in Heq.
    apply (f_equal List.length) in Heq. subst e2 e1. simpl in Heq.
    unfold push in Heq. rewrite !length_app in Heq. simpl in Heq. lia.
  - apply hasInvisibleId_elem.
    destruct (decide (a ∈ Entity.invisiblesIds e)) as [Hin|Hout].
    + apply list_elem_of_split_l in Hin as (l1 & l2 & Hl & Hl1).
      rewrite (removeInvisibleId_first e2 l1 (l2 ++ [a; a]) a).
      * simpl. set_solver.
      * subst e2 e1. simpl. unfold push. rewrite Hl, <- !app_assoc. reflexivity.
      * exact Hl1.
    + rewrite (removeInvisibleId_first e2 (Entity.invisiblesIds e) [a] a).
      * simpl. set_solver.
      * subst e2 e1. simpl. unfold push. rewrite <- app_assoc. reflexivity.
      * exact Hout.
Qed.

(** ** Hide list of instances *)

Lemma hasInvisible_addInvisible (o t : Entity.t) (ref : loc) :
  Entity.hasInvisible (Entity.addInvisible o ref t) t = true.
Proof.
  unfold Entity.hasInvisible, Entity.addInvisible. simpl.
  rewrite lookup_insert_eq. reflexivity.
Qed.

Lemma hasInvisible_removeInvisible (o t : Entity.t) :
  Entity.hasInvisible (Entity.removeInvisible o t) t = false.
Proof.
  unfold Entity.hasInvisible, Entity.removeInvisible. simpl.
  rewrite lookup_delete_eq. reflexivity.
Qed.

Lemma set_invisibles_same (e : Entity.t) :
  Entity.set_invisibles (Entity.invisibles e) e = e.
Proof. destruct e; reflexivity. Qed.

Lemma hasInvisible_false (o t : Entity.t) :
  Entity.hasInvisible o t = false
  <-> Entity.invisibles o !! Entity.instance t = None.
Proof.
  unfold Entity.hasInvisible.
  destruct (Entity.invisibles o !! Entity.instance t); split; congruence.
Qed.

(** Whatever the list held before, the pair leaves the target unhidden. *)
Lemma hasInvisible_hide_unhide (o t : Entity.t) (ref : loc) :
  Entity.hasInvisible
    (Entity.removeInvisible (Entity.addInvisible o ref t) t) t = false.
Proof. apply hasInvisible_removeInvisible. Qed.

(** C2, the claim as stated fails: an observer that already hides
    ["m-42"] does not see the skeleton before the pair, and sees it
    after. *)
Lemma hide_unhide_not_round_trip :
  let o := Entity.addInvisible observer 2%positive skeleton in
  let o' := Entity.removeInvisible
              (Entity.addInvisible o 2%positive skeleton) skeleton in
  negb (Entity.hasInvisible o skeleton) = false
  /\ negb (Entity.hasInvisible o' skeleton) = true
  /\ visibleTo o' skeleton <> visibleTo o skeleton.
Proof.
  cbv zeta. split; [reflexivity|]. split; [reflexivity|].
  vm_compute. discriminate.
Qed.

(** C2, amended: when the target's instance is not in the observer's
    hidden-instance list before the pair, [addInvisible] followed by
    [removeInvisible] restores the visibility value, and indeed the whole
    observer. *)
Theorem hide_unhide_round_trip (o t : Entity.t) (ref : loc) :
  Entity.hasInvisible o t = false ->
  let o' := Entity.removeInvisible (Entity.addInvisible o ref t) t in
  negb (Entity.hasInvisible o' t) = negb (Entity.hasInvisible o t)
  /\ visibleTo o' t = visibleTo o t
  /\ o' = o.
Proof.
  intros Hfree o'.
  assert (Heq : o' = o).
  { subst o'. apply hasInvisible_false in Hfree.
    unfold Entity.removeInvisible, Entity.addInvisible, Entity.set_invisibles.
    simpl. rewrite (delete_insert_id _ _ _ Hfree).
    destruct o; reflexivity. }
  rewrite Heq. repeat split.
Qed.

Lemma hide_unhide_round_trip_witness :
  visibleTo
    (Entity.removeInvisible
       (Entity.addInvisible observer 2%positive skeleton) skeleton) skeleton
  = visibleTo observer skeleton.
Proof.
  apply (hide_unhide_round_trip observer skeleton 2%positive). reflexivity.
Defined.

(** ** Hiding does not touch the hidden entity *)

Lemma addInvisible_store (σ : World.Store) (A B : loc) (a b : Entity.t) :
  σ !! A = Some a -> σ !! B = Some b ->
  World.addInvisible A B σ = <[A := Entity.addInvisible a B b]> σ.
Proof.
  intros HA HB. unfold World.addInvisible. rewrite HB.
  apply map_eq. intros C. destruct (decide (A = C)) as [<-|Hne].
  - rewrite lookup_alter_eq, lookup_insert_eq, HA. reflexivity.
  - rewrite lookup_alter_ne, lookup_insert_ne by exact Hne. reflexivity.
Qed.

(** C9: in a store where [A] and [B] are distinct entities,
    [A.addInvisible(B)] leaves the record of [B] as it was and rewrites
    only [A], whose [instance] and [id] stay the same; so
    [B.hasInvisible(A)], [B.hasInvisibleId(A.id)] and [visibleTo(B, A)]
    keep their values. *)
Theorem addInvisible_asymmetric (σ : World.Store) (A B : loc)
    (a b : Entity.t) :
  A <> B -> σ !! A = Some a -> σ !! B = Some b ->
  let σ' := World.addInvisible A B σ in
  let a' := Entity.addInvisible a B b in
  σ' !! B = Some b
  /\ σ' !! A = Some a'
  /\ (forall C : loc, C <> A -> σ' !! C = σ !! C)
  /\ Entity.hasInvisible a' b = true
  /\ Entity.hasInvisible b a' = Entity.hasInvisible b a
  /\ Entity.hasInvisibleId b (Entity.id a') = Entity.hasInvisibleId b (Entity.id a)
  /\ visibleTo b a' = visibleTo b a.
Proof.
  intros Hne HA HB σ' a'. subst σ'.
  rewrite (addInvisible_store σ A B a b HA HB).
  split; [rewrite lookup_insert_ne by exact Hne; exact HB|].
  split; [apply lookup_insert_eq|].
  split; [intros C HC; apply lookup_insert_ne; congruence|].
  split; [apply hasInvisible_addInvisible|].
  repeat split.
Qed.

Lemma addInvisible_asymmetric_witness :
  World.addInvisible 1%positive 2%positive world !! 2%positive = Some skeleton
  /\ visibleTo skeleton (Entity.addInvisible observer 2%positive skeleton)
     = visibleTo skeleton observer.
Proof.
  pose proof (addInvisible_asymmetric world 1%positive 2%positive
                observer skeleton) as H.
  cbv zeta in H.
  destruct H as (HB & _ & _ & _ & _ & _ & Hv);
    [discriminate | reflexivity | reflexivity |].
  split; [exact HB | exact Hv].
Defined.

(** ** Snapshot *)

(** C3: the mob with id 5, instance ["m-42"], at (10, 12), in special
    state ["boss"] and without [customScale], looked up as
    ["skeleton"]/["Skeleton"], serialises to exactly the seven fields of
    the example, in this order; [id] carries the instance and there is no
    [customScale] field. *)
Theorem getState_mob_example (Mobs NPCs Items : Entity.Registry)
    (e : Entity.t) :
  Entity.type e = "mob" -> Entity.id e = 5 -> Entity.instance e = "m-42" ->
  Entity.x e = 10 -> Entity.y e = 12 ->
  Entity.specialState e = VStr "boss" -> Entity.customScale e = VUndefined ->
  Entity.idToString Mobs 5 = VStr "skeleton" ->
  Entity.idToName Mobs 5 = VStr "Skeleton" ->
  Entity.getState Mobs NPCs Items e
  = [ ("type", VStr "mob"); ("id", VStr "m-42");
      ("string", VStr "skeleton"); ("name", VStr "Skeleton");
      ("x", ofZ 10); ("y", ofZ 12); ("nameColour", VStr "#660033") ]
  /\ getField "customScale" (Entity.getState Mobs NPCs Items e) = None
  /\ getField "id" (Entity.getState Mobs NPCs Items e)
     = Some (VStr (Entity.instance e)).
Proof.
  intros Ht Hid Hi Hx Hy Hs Hc Hstr Hname.
  assert (Heq : Entity.getState Mobs NPCs Items e
    = [ ("type", VStr "mob"); ("id", VStr "m-42");
        ("string", VStr "skeleton"); ("name", VStr "Skeleton");
        ("x", ofZ 10); ("y", ofZ 12); ("nameColour", VStr "#660033") ]).
  { unfold Entity.getState, Entity.getNameColour, Entity.isMob.
    rewrite Ht, Hid, Hi, Hx, Hy, Hs, Hc, Hstr, Hname. reflexivity. }
  rewrite Heq, Hi. repeat split.
Qed.

Lemma getState_mob_example_witness :
  Entity.getState mobs noEntries noEntries skeleton
  = [ ("type", VStr "mob"); ("id", VStr "m-42");
      ("string", VStr "skeleton"); ("name", VStr "Skeleton");
      ("x", ofZ 10); ("y", ofZ 12); ("nameColour", VStr "#660033") ].
Proof.
  apply (getState_mob_example mobs noEntries noEntries skeleton);
    reflexivity.
Defined.

Lemma getField_setField_same (key : string) (v : JsVal) (o : JsObject) :
  getField key (setField key v o) = Some v.
Proof.
  induction o as [|[k w] o IH]; simpl.
  - rewrite String.eqb_refl. reflexivity.
  - destruct (String.eqb k key) eqn:Hk; simpl; rewrite Hk; [reflexivity|exact IH].
Qed.

Lemma getField_setField_other (key key' : string) (v : JsVal) (o : JsObject) :
  String.eqb key key' = false ->
  getField key' (setField key v o) = getField key' o.
Proof.
  intros Hne. induction o as [|[k w] o IH]; simpl.
  - rewrite Hne. reflexivity.
  - destruct (String.eqb k key) eqn:Hk; simpl.
    + apply String.eqb_eq in Hk. subst k. rewrite Hne. reflexivity.
    + rewrite IH. reflexivity.
Qed.

(** C8, the claim as stated fails: with [customScale] set to the number
    0 the snapshot has no [customScale] field. *)
Lemma getState_drops_zero_scale :
  let e := Entity.set_customScale (ofZ 0) skeleton in
  Entity.customScale e = ofZ 0
  /\ Entity.customScale e <> VUndefined
  /\ hasField "customScale" (Entity.getState mobs noEntries noEntries e) = false.
Proof.
  cbv zeta. split; [reflexivity|]. split; [discriminate|reflexivity].
Qed.

(** C8, amended: the snapshot holds [nameColour] exactly when
    [specialState] is truthy, with the value of [getNameColour] (the
    fixed colour of each of the six states); it holds [customScale]
    exactly when [customScale] is truthy, with that value unchanged.  A
    falsy value that is set, such as the number 0, gives no field. *)
Theorem getState_optional_fields (Mobs NPCs Items : Entity.Registry)
    (e : Entity.t) :
  getField "nameColour" (Entity.getState Mobs NPCs Items e)
  = (if toBoolean (Entity.specialState e)
     then Some (Entity.getNameColour e) else None)
  /\ getField "customScale" (Entity.getState Mobs NPCs Items e)
     = (if toBoolean (Entity.customScale e)
        then Some (Entity.customScale e) else None)
  /\ map (fun s => Entity.getNameColour (Entity.set_specialState (VStr s) e))
         ["boss"; "miniboss"; "achievementNpc"; "area"; "questNpc"; "questMob"]
     = map VStr ["#660033"; "#cc3300"; "#669900"; "#00aa00"; "#6699ff"; "#0099cc"]
  /\ getField "customScale"
       (Entity.getState Mobs NPCs Items (Entity.set_customScale (ofZ 0) e))
     = None.
Proof.
  assert (Hscale : forall e' : Entity.t,
    getField "customScale" (Entity.getState Mobs NPCs Items e')
    = (if toBoolean (Entity.customScale e')
       then Some (Entity.customScale e') else None)).
  { intros e'. unfold Entity.getState. cbv zeta.
    destruct (toBoolean (Entity.customScale e')).
    - apply getField_setField_same.
    - destruct (toBoolean (Entity.specialState e')); reflexivity. }
  split; [|split; [apply Hscale|split; [reflexivity|]]].
  - unfold Entity.getState. cbv zeta.
    destruct (toBoolean (Entity.customScale e)).
    + rewrite getField_setField_other by reflexivity.
      destruct (toBoolean (Entity.specialState e)); reflexivity.
    + destruct (toBoolean (Entity.specialState e)); reflexivity.
  - rewrite Hscale. reflexivity.
Qed.

(** ** Capability hook *)

(** C4: on the base class [canAggro] throws for every receiver and every
    argument; it returns no value, in particular not [false]. *)
Theorem canAggro_throws (Player : Type) (e : Entity.t) (player : Player) :
  Entity.canAggro e player = Throw "Method not implemented."
  /\ (forall v : JsVal, Entity.canAggro e player <> Return v)
  /\ Entity.canAggro e player <> Return (VBool false).
Proof.
  split; [reflexivity|]. split; [intros v|]; discriminate.
Qed.

(** ** Position writes *)

Lemma setPosition_writes (e : Entity.t) (x y : Z) :
  Entity.set_y y (Entity.set_x x e)
  = Entity.mk (Entity.id e) (Entity.type e) (Entity.instance e) x y
      (Entity.oldX e) (Entity.oldY e) (Entity.setPositionCallback e)
      (Entity.invisibles e) (Entity.invisiblesIds e)
      (Entity.specialState e) (Entity.customScale e) (Entity.combat e)
      (Entity.dead e) (Entity.recentRegions e) (Entity.roaming e).
Proof. reflexivity. Qed.

Lemma updatePosition_writes (e : Entity.t) :
  Entity.updatePosition e
  = Entity.mk (Entity.id e) (Entity.type e) (Entity.instance e)
      (Entity.x e) (Entity.y e) (Entity.x e) (Entity.y e)
      (Entity.setPositionCallback e)
      (Entity.invisibles e) (Entity.invisiblesIds e)
      (Entity.specialState e) (Entity.customScale e) (Entity.combat e)
      (Entity.dead e) (Entity.recentRegions e) (Entity.roaming e).
Proof. reflexivity. Qed.

Lemma alter_twice_lookup (σ : World.Store) (this : loc) (e : Entity.t)
    (f g : Entity.t -> Entity.t) :
  σ !! this = Some e ->
  alter g this (alter f this σ) = <[this := g (f e)]> σ.
Proof.
  intros Hthis. apply map_eq. intros C.
  destruct (decide (this = C)) as [<-|Hne].
  - rewrite !lookup_alter_eq, lookup_insert_eq, Hthis. reflexivity.
  - rewrite !lookup_alter_ne, lookup_insert_ne by exact Hne. reflexivity.
Qed.

(** C7: [setPosition(x, y)] on the entity [e] at [this] writes [x] and
    [y] and no other field of [e], and no other entity; in the store so
    obtained it calls the registered callback once, when there is one, and
    the store the call leaves is the result.  [oldX] and [oldY] are as
    before unless the callback itself rewrites the entity;
    [updatePosition] is what copies [(x, y)] into [(oldX, oldY)], and it
    changes nothing else. *)
Theorem setPosition_frame (run : Callback -> World.Store -> World.Store)
    (σ : World.Store) (this : loc) (x y : Z) (e : Entity.t) :
  σ !! this = Some e ->
  let e' := Entity.set_y y (Entity.set_x x e) in
  let σ' := <[this := e']> σ in
  World.setPosition run this x y σ
  = match Entity.setPositionCallback e with
    | Some callback => run callback σ'
    | None => σ'
    end
  /\ e' = Entity.mk (Entity.id e) (Entity.type e) (Entity.instance e) x y
            (Entity.oldX e) (Entity.oldY e) (Entity.setPositionCallback e)
            (Entity.invisibles e) (Entity.invisiblesIds e)
            (Entity.specialState e) (Entity.customScale e) (Entity.combat e)
            (Entity.dead e) (Entity.recentRegions e) (Entity.roaming e)
  /\ (forall C : loc, C <> this -> σ' !! C = σ !! C)
  /\ (forall callback : Callback,
        World.setPosition run this x y
          (World.onSetPosition this (Some callback) σ)
        = run callback
            (<[this := Entity.set_y y (Entity.set_x x
                         (Entity.onSetPosition (Some callback) e))]> σ))
  /\ ((forall (callback : Callback) (s : World.Store),
         run callback s !! this = s !! this) ->
      World.setPosition run this x y σ !! this = Some e')
  /\ World.updatePosition this σ' !! this
     = Some (Entity.mk (Entity.id e) (Entity.type e) (Entity.instance e) x y
               x y (Entity.setPositionCallback e)
               (Entity.invisibles e) (Entity.invisiblesIds e)
               (Entity.specialState e) (Entity.customScale e) (Entity.combat e)
               (Entity.dead e) (Entity.recentRegions e) (Entity.roaming e)).
Proof.
  intros Hthis e' σ'.
  assert (Hrun : World.setPosition run this x y σ
                 = match Entity.setPositionCallback e with
                   | Some callback => run callback σ'
                   | None => σ'
                   end).
  { unfold World.setPosition. cbv zeta.
    rewrite (alter_twice_lookup σ this e _ _ Hthis).
    rewrite lookup_insert_eq. reflexivity. }
  split; [exact Hrun|]. split; [reflexivity|].
  split; [intros C HC; apply lookup_insert_ne; congruence|].
  split; [|split].
  - intros callback. unfold World.setPosition, World.onSetPosition. cbv zeta.
    rewrite (alter_twice_lookup _ this (Entity.onSetPosition (Some callback) e)).
    + rewrite lookup_insert_eq. simpl.
      f_equal. apply map_eq. intros C. destruct (decide (this = C)) as [<-|Hne].
      * rewrite !lookup_insert_eq. reflexivity.
      * rewrite !lookup_insert_ne, lookup_alter_ne by exact Hne. reflexivity.
    + rewrite lookup_alter_eq, Hthis. reflexivity.
  - intros Hkeep. rewrite Hrun.
    destruct (Entity.setPositionCallback e) as [callback|].
    + rewrite Hkeep. apply lookup_insert_eq.
    + apply lookup_insert_eq.
  - subst σ'. unfold World.updatePosition.
    rewrite lookup_alter_eq, lookup_insert_eq. reflexivity.
Qed.

Lemma setPosition_frame_witness :
  World.setPosition commitFirst 2%positive 3 4 world !! 2%positive
  = Some (Entity.set_y 4 (Entity.set_x 3 skeleton))
  /\ World.setPosition commitFirst 1%positive 3 4
       (World.onSetPosition 1%positive (Some 0%nat) world) !! 1%positive
     = Some (Entity.updatePosition
               (Entity.set_y 4 (Entity.set_x 3
                  (Entity.onSetPosition (Some 0%nat) observer)))).
Proof.
  split.
  - apply (setPosition_frame commitFirst world 2%positive 3 4 skeleton);
      [reflexivity | intros callback s; apply lookup_alter_ne; discriminate].
  - pose proof (setPosition_frame commitFirst world 1%positive 3 4 observer)
      as H.
    destruct H as (_ & _ & _ & Hcall & _); [reflexivity|].
    rewrite Hcall. reflexivity.
Defined.

(** * Further properties of the class *)

(** ** Distances *)

(** X1: [getDistance] is a metric on grid cells: it is never negative,
    symmetric, zero exactly between entities on the same cell, and obeys
    the triangle inequality. *)
Theorem getDistance_metric (a b c : Entity.t) :
  0 <= Entity.getDistance a b
  /\ Entity.getDistance a b = Entity.getDistance b a
  /\ (Entity.getDistance a b = 0
      <-> Entity.x a = Entity.x b /\ Entity.y a = Entity.y b)
  /\ Entity.getDistance a c
     <= Entity.getDistance a b + Entity.getDistance b c.
Proof. rewrite !getDistance_max. lia. Qed.

Lemma getCoordDistance_max (a : Entity.t) (toX toY : Z) :
  Entity.getCoordDistance a toX toY
  = Z.max (Z.abs (Entity.x a - toX)) (Z.abs (Entity.y a - toY)).
Proof.
  unfold Entity.getCoordDistance. cbv zeta.
  destruct (Z.gtb_spec (Z.abs (Entity.x a - toX)) (Z.abs (Entity.y a - toY)));
    lia.
Qed.

(** X2: [getCoordDistance] to the coordinates of an entity is
    [getDistance] to that entity, and moving the probed cell changes the
    result by no more than the cell moved (by at most 1 for a step to one
    of the eight neighbours). *)
Theorem getCoordDistance_probe (a b : Entity.t) (toX toY toX' toY' : Z) :
  Entity.getCoordDistance a (Entity.x b) (Entity.y b) = Entity.getDistance a b
  /\ Z.abs (Entity.getCoordDistance a toX' toY'
            - Entity.getCoordDistance a toX toY)
     <= Z.max (Z.abs (toX' - toX)) (Z.abs (toY' - toY)).
Proof.
  split; [reflexivity|]. rewrite !getCoordDistance_max. lia.
Qed.

Lemma isNear_leb (a b : Entity.t) (r : Z) :
  Entity.isNear a b r = (Entity.getDistance a b <=? r).
Proof.
  apply eq_true_iff_eq.
  rewrite isNear_axes, Z.leb_le, getDistance_max. lia.
Qed.

(** X3: [isNear] does not depend on which of the two entities is the
    receiver, it is false for every negative radius (even between an
    entity and itself), it stays true when the radius grows, and an
    entity is near itself exactly for radii from 0 on. *)
Theorem isNear_radius (a b : Entity.t) (r r' : Z) :
  Entity.isNear a b r = Entity.isNear b a r
  /\ (r < 0 -> Entity.isNear a b r = false)
  /\ (r <= r' -> Entity.isNear a b r = true -> Entity.isNear a b r' = true)
  /\ Entity.isNear a a r = (0 <=? r).
Proof.
  rewrite !isNear_leb, (getDistance_sym b a), getDistance_self.
  pose proof (getDistance_max a b) as Hd.
  split; [reflexivity|]. split; [|split; [|reflexivity]].
  - intros Hr. apply Z.leb_gt. lia.
  - intros Hr. rewrite !Z.leb_le. lia.
Qed.

Lemma isNear_radius_witness :
  Entity.isNear (cell 3 4) (cell 3 4) (-1) = false
  /\ Entity.isNear (cell 3 4) (cell 5 5) 7 = true.
Proof.
  split.
  - apply (proj1 (proj2 (isNear_radius (cell 3 4) (cell 3 4) (-1) 0))).
    reflexivity.
  - apply (proj1 (proj2 (proj2 (isNear_radius (cell 3 4) (cell 5 5) 2 7))));
      [discriminate | reflexivity].
Defined.

(** X4: [isSurrounding] is [isNear] with radius 1; it is symmetric, holds
    between an entity and itself, and is falsy when no entity is
    passed. *)
Theorem isSurrounding_isNear (a b : Entity.t) :
  Entity.isSurrounding a (Some b) = Entity.isNear a b 1
  /\ Entity.isSurrounding a (Some b) = Entity.isSurrounding b (Some a)
  /\ Entity.isSurrounding a (Some a) = true
  /\ Entity.isSurrounding a None = false.
Proof.
  rewrite isNear_leb. simpl.
  rewrite (getDistance_sym b a), getDistance_self.
  split; [|repeat split].
  apply eq_true_iff_eq. rewrite Z.ltb_lt, Z.leb_le. lia.
Qed.

(** X5: [isNonDiagonal] holds exactly when the two cells are at most one
    orthogonal step apart (the sum of the absolute axis deltas is at most
    1); it is symmetric, and falsy when no entity is passed. *)
Theorem isNonDiagonal_orthogonal (a b : Entity.t) :
  (Entity.isNonDiagonal a (Some b) = true
   <-> Z.abs (Entity.x a - Entity.x b) + Z.abs (Entity.y a - Entity.y b) <= 1)
  /\ Entity.isNonDiagonal a (Some b) = Entity.isNonDiagonal b (Some a)
  /\ Entity.isNonDiagonal a None = false.
Proof.
  assert (Hchar : forall u v : Entity.t,
    Entity.isNonDiagonal u (Some v) = true
    <-> Z.abs (Entity.x u - Entity.x v) + Z.abs (Entity.y u - Entity.y v) <= 1).
  { intros u v. unfold Entity.isNonDiagonal.
    destruct (Entity.isSurrounding u (Some v)) eqn:Hs.
    - apply isSurrounding_distance in Hs. rewrite getDistance_max in Hs.
      rewrite negb_true_iff, andb_false_iff, !negb_false_iff, !Z.eqb_eq. lia.
    - assert (Hd : ~ Entity.getDistance u v < 2).
      { intros Hd. apply isSurrounding_distance in Hd. congruence. }
      rewrite getDistance_max in Hd. split; [discriminate | lia]. }
  split; [apply Hchar|]. split; [|reflexivity].
  apply eq_true_iff_eq. rewrite !Hchar. lia.
Qed.

(** ** Construction and committed position *)


(** X7: [updatePosition] copies the current cell into [(oldX, oldY)] and
    leaves the current cell alone; a second call without a move in
    between changes nothing more. *)
Theorem updatePosition_idempotent (e : Entity.t) :
  Entity.updatePosition (Entity.updatePosition e) = Entity.updatePosition e
  /\ Entity.oldX (Entity.updatePosition e) = Entity.x e
  /\ Entity.oldY (Entity.updatePosition e) = Entity.y e
  /\ Entity.x (Entity.updatePosition e) = Entity.x e
  /\ Entity.y (Entity.updatePosition e) = Entity.y e
  /\ Entity.getDistance (Entity.updatePosition e) e = 0.
Proof.
  repeat split. rewrite getDistance_max. simpl. lia.
Qed.

(** ** Hide list of instances, continued *)


(** X9: unlike the id list, the instance list does not count requests.
    Hiding the same entity again changes nothing, hiding another object
    under the same instance only replaces the stored reference, one
    [removeInvisible] undoes any number of hides, and removing an
    instance that is not hidden is a no-op. *)
Theorem addInvisible_idempotent (o t : Entity.t) (ref ref' : loc) :
  Entity.addInvisible (Entity.addInvisible o ref t) ref t
  = Entity.addInvisible o ref t
  /\ Entity.addInvisible (Entity.addInvisible o ref t) ref' t
     = Entity.addInvisible o ref' t
  /\ Entity.removeInvisible
       (Entity.addInvisible (Entity.addInvisible o ref t) ref' t) t
     = Entity.removeInvisible o t
  /\ Entity.removeInvisible (Entity.removeInvisible o t) t
     = Entity.removeInvisible o t
  /\ (Entity.hasInvisible o t = false -> Entity.removeInvisible o t = o).
Proof.
  unfold Entity.addInvisible, Entity.removeInvisible, Entity.set_invisibles.
  simpl. rewrite !insert_insert_eq, !delete_insert_eq, delete_delete_eq.
  repeat split.
  intros Hfree. apply hasInvisible_false in Hfree.
  rewrite (delete_id _ _ Hfree). destruct o; reflexivity.
Qed.

Lemma addInvisible_idempotent_witness :
  Entity.removeInvisible observer skeleton = observer.
Proof.
  apply (proj2 (proj2 (proj2 (proj2
           (addInvisible_idempotent observer skeleton 2%positive 2%positive))))).
  reflexivity.
Defined.

(** ** Hide list of ids, continued *)

Lemma count_occ_absent (l : list Z) (a : Z) :
  a ∉ l -> count_occ Z.eq_dec l a = 0%nat.
Proof.
  intros Hout. apply count_occ_not_In. rewrite <- list_elem_of_In. exact Hout.
Qed.

Lemma removeInvisibleId_cases (e : Entity.t) (a : Z) :
  ((a ∉ Entity.invisiblesIds e) /\ Entity.removeInvisibleId e a = e)
  \/ (exists l r : list Z,
        Entity.invisiblesIds e = l ++ a :: r /\ (a ∉ l)
        /\ Entity.removeInvisibleId e a = Entity.set_invisiblesIds (l ++ r) e).
Proof.
  destruct (decide (a ∈ Entity.invisiblesIds e)) as [Hin|Hout].
  - right. apply list_elem_of_split_l in Hin as (l & r & Heq & Hl).
    exists l, r. split; [exact Heq|]. split; [exact Hl|].
    apply removeInvisibleId_first; assumption.
  - left. split; [exact Hout | apply removeInvisibleId_absent, Hout].
Qed.

(** X10: the id list is a multiset of hide requests.  [addInvisibleId(a)]
    raises the number of occurrences of [a] by one and
    [removeInvisibleId(a)] lowers it by one (not below zero); neither
    changes the count of another id; and [hasInvisibleId(b)] is true
    exactly while [b] occurs at least once. *)
Theorem invisiblesIds_count (e : Entity.t) (a b : Z) :
  count_occ Z.eq_dec (Entity.invisiblesIds (Entity.addInvisibleId e a)) b
  = (count_occ Z.eq_dec (Entity.invisiblesIds e) b
     + (if Z.eqb a b then 1 else 0))%nat
  /\ count_occ Z.eq_dec (Entity.invisiblesIds (Entity.removeInvisibleId e a)) b
     = (count_occ Z.eq_dec (Entity.invisiblesIds e) b
        - (if Z.eqb a b then 1 else 0))%nat
  /\ (Entity.hasInvisibleId e b = true
      <-> (0 < count_occ Z.eq_dec (Entity.invisiblesIds e) b)%nat).
Proof.
  split; [|split].
  - rewrite invisiblesIds_addInvisibleId, count_occ_app. simpl.
    destruct (Z.eqb_spec a b) as [->|Hne].
    + destruct (Z.eq_dec b b); [reflexivity | congruence].
    + destruct (Z.eq_dec a b); [congruence | reflexivity].
  - destruct (removeInvisibleId_cases e a)
      as [[Hout ->]|(l & r & Heq & Hl & ->)].
    + destruct (Z.eqb_spec a b) as [->|Hne]; [|lia].
      rewrite (count_occ_absent _ _ Hout). reflexivity.
    + simpl. rewrite Heq, !count_occ_app. simpl.
      destruct (Z.eqb_spec a b) as [->|Hne].
      * destruct (Z.eq_dec b b); [lia | congruence].
      * destruct (Z.eq_dec a b); [congruence | lia].
  - rewrite hasInvisibleId_elem, list_elem_of_In.
    apply (count_occ_In Z.eq_dec).
Qed.

(** X11: hiding an id and then unhiding it keeps the list up to order:
    the result is a permutation of the list before, every id is hidden
    after the pair exactly when it was before, and when the id was not in
    the list the entity is back as it was.  When the id already was in
    the list, it is its first occurrence that goes and the new one stays
    at the end. *)
Theorem addInvisibleId_removeInvisibleId (e : Entity.t) (a b : Z) :
  let e' := Entity.removeInvisibleId (Entity.addInvisibleId e a) a in
  Entity.invisiblesIds e' ≡ₚ Entity.invisiblesIds e
  /\ Entity.hasInvisibleId e' b = Entity.hasInvisibleId e b
  /\ (Entity.hasInvisibleId e a = false -> e' = e)
  /\ (forall l r : list Z,
        Entity.invisiblesIds e = l ++ a :: r -> a ∉ l ->
        Entity.invisiblesIds e' = l ++ r ++ [a]).
Proof.
  intros e'.
  assert (Hrot : forall l r : list Z,
    Entity.invisiblesIds e = l ++ a :: r -> a ∉ l ->
    Entity.invisiblesIds e' = l ++ r ++ [a]).
  { intros l r Heq Hl. subst e'.
    rewrite (removeInvisibleId_first _ l (r ++ [a]) a); [reflexivity| |exact Hl].
    rewrite invisiblesIds_addInvisibleId, Heq, <- app_assoc. reflexivity. }
  assert (Hback : a ∉ Entity.invisiblesIds e -> e' = e).
  { intros Hout. subst e'.
    rewrite (removeInvisibleId_first _ (Entity.invisiblesIds e) [] a);
      [|reflexivity|exact Hout].
    unfold Entity.addInvisibleId. rewrite set_invisiblesIds_twice, app_nil_r.
    apply set_invisiblesIds_same. }
  assert (Hperm : Entity.invisiblesIds e' ≡ₚ Entity.invisiblesIds e).
  { destruct (decide (a ∈ Entity.invisiblesIds e)) as [Hin|Hout].
    - apply list_elem_of_split_l in Hin as (l & r & Heq & Hl).
      rewrite (Hrot l r Heq Hl), Heq.
      apply Permutation_app_head. symmetry. apply Permutation_cons_append.
    - rewrite (Hback Hout). reflexivity. }
  split; [exact Hperm|]. split; [|split; [|exact Hrot]].
  - apply eq_true_iff_eq. rewrite !hasInvisibleId_elem, Hperm. reflexivity.
  - intros Hout. apply Hback, hasInvisibleId_not_elem, Hout.
Qed.

Lemma addInvisibleId_removeInvisibleId_witness :
  Entity.removeInvisibleId (Entity.addInvisibleId observer 7) 7 = observer
  /\ Entity.invisiblesIds
       (Entity.removeInvisibleId
          (Entity.addInvisibleId
             (Entity.set_invisiblesIds [3; 7; 5] observer) 7) 7)
     = [3; 5; 7].
Proof.
  split.
  - apply (proj1 (proj2 (proj2
             (addInvisibleId_removeInvisibleId observer 7 7)))).
    reflexivity.
  - apply (proj2 (proj2 (proj2
             (addInvisibleId_removeInvisibleId
                (Entity.set_invisiblesIds [3; 7; 5] observer) 7 7))) [3] [5]).
    + reflexivity.
    + apply not_elem_of_cons. split; [discriminate | apply not_elem_of_nil].
Defined.

(** ** Snapshot, continued *)

(** X12: the snapshot always starts with the six fields [type], [id],
    [string], [name], [x], [y], in this order, followed by [nameColour]
    and then [customScale] when present; no field name occurs twice, and
    [type], [id], [x] and [y] carry the entity's type, instance and
    cell. *)
Theorem getState_shape (Mobs NPCs Items : Entity.Registry) (e : Entity.t) :
  map fst (Entity.getState Mobs NPCs Items e)
  = ["type"; "id"; "string"; "name"; "x"; "y"]
    ++ (if toBoolean (Entity.specialState e) then ["nameColour"] else [])
    ++ (if toBoolean (Entity.customScale e) then ["customScale"] else [])
  /\ NoDup (map fst (Entity.getState Mobs NPCs Items e))
  /\ getField "type" (Entity.getState Mobs NPCs Items e)
     = Some (VStr (Entity.type e))
  /\ getField "id" (Entity.getState Mobs NPCs Items e)
     = Some (VStr (Entity.instance e))
  /\ getField "x" (Entity.getState Mobs NPCs Items e) = Some (ofZ (Entity.x e))
  /\ getField "y" (Entity.getState Mobs NPCs Items e) = Some (ofZ (Entity.y e)).
Proof.
  unfold Entity.getState. cbv zeta.
  destruct (toBoolean (Entity.specialState e)),
           (toBoolean (Entity.customScale e)); simpl;
    (split; [reflexivity|]); (split; [|repeat split]);
    apply (bool_decide_unpack _); vm_compute; reflexivity.
Qed.

(** X13: the [string] and [name] fields are looked up in the mob tables
    for type ["mob"], in the NPC tables for type ["npc"], and in the item
    tables for every other type; so a player's snapshot is labelled from
    the item tables. *)
Theorem getState_lookup_dispatch (Mobs NPCs Items : Entity.Registry)
    (e : Entity.t) :
  let table :=
    if Entity.isMob e then Mobs else if Entity.isNPC e then NPCs else Items in
  getField "string" (Entity.getState Mobs NPCs Items e)
  = Some (Entity.idToString table (Entity.id e))
  /\ getField "name" (Entity.getState Mobs NPCs Items e)
     = Some (Entity.idToName table (Entity.id e))
  /\ (Entity.isPlayer e = true -> table = Items).
Proof.
  cbv zeta. unfold Entity.getState. cbv zeta.
  split; [|split].
  - destruct (toBoolean (Entity.specialState e)),
             (toBoolean (Entity.customScale e)), (Entity.isMob e),
             (Entity.isNPC e); reflexivity.
  - destruct (toBoolean (Entity.specialState e)),
             (toBoolean (Entity.customScale e)), (Entity.isMob e),
             (Entity.isNPC e); reflexivity.
  - unfold Entity.isPlayer, Entity.isMob, Entity.isNPC.
    intros Hp. apply String.eqb_eq in Hp. rewrite Hp. reflexivity.
Qed.

Lemma getState_lookup_dispatch_witness :
  getField "string" (Entity.getState noEntries noEntries mobs
                       (Entity.new 5 "player" "p-5" 0 0))
  = Some (VStr "skeleton").
Proof.
  pose proof (getState_lookup_dispatch noEntries noEntries mobs
                (Entity.new 5 "player" "p-5" 0 0)) as H.
  cbv zeta in H. destruct H as (Hs & _ & Ht).
  rewrite Hs, (Ht eq_refl). reflexivity.
Defined.

(** X14: [getNameColour] returns a colour exactly for the six special
    states of the [switch] and [undefined] for everything else; for any
    other truthy special state the snapshot therefore has a [nameColour]
    field whose value is [undefined]. *)
Theorem getNameColour_defined (Mobs NPCs Items : Entity.Registry)
    (e : Entity.t) :
  (Entity.getNameColour e <> VUndefined
   <-> exists s : string,
         Entity.specialState e = VStr s
         /\ s ∈ ["boss"; "miniboss"; "achievementNpc"; "area"; "questNpc";
                 "questMob"])
  /\ (toBoolean (Entity.specialState e) = true ->
      Entity.getNameColour e = VUndefined ->
      getField "nameColour" (Entity.getState Mobs NPCs Items e)
      = Some VUndefined).
Proof.
  split.
  - unfold Entity.getNameColour. cbv zeta.
    destruct (Entity.specialState e) as [| |b|n|s]; simpl;
      try (split; [intros Hd; contradiction Hd; reflexivity
                  | intros (s' & Hs & _); discriminate Hs]).
    destruct (String.eqb_spec s "boss") as [->|?];
      [|destruct (String.eqb_spec s "miniboss") as [->|?];
        [|destruct (String.eqb_spec s "achievementNpc") as [->|?];
          [|destruct (String.eqb_spec s "area") as [->|?];
            [|destruct (String.eqb_spec s "questNpc") as [->|?];
              [|destruct (String.eqb_spec s "questMob") as [->|?]]]]]];
      try (split; [intros _; eexists; split;
                     [reflexivity | apply (bool_decide_unpack _); reflexivity]
                  | discriminate]).
    split; [intros Hd; contradiction Hd; reflexivity|].
    intros (s' & Hs & Hin). injection Hs as <-.
    repeat (apply elem_of_cons in Hin as [->|Hin]; [congruence|]).
    apply elem_of_nil in Hin. contradiction.
  - intros Ht Hu. unfold Entity.getState. cbv zeta. rewrite Ht, Hu.
    destruct (toBoolean (Entity.customScale e)); reflexivity.
Qed.

Lemma getNameColour_defined_witness :
  getField "nameColour"
    (Entity.getState mobs noEntries noEntries
       (Entity.set_specialState (VStr "elite") skeleton))
  = Some VUndefined.
Proof.
  apply (proj2 (getNameColour_defined mobs noEntries noEntries
                  (Entity.set_specialState (VStr "elite") skeleton)));
    reflexivity.
Defined.

(** X15: the snapshot reads only [type], [id], [instance], [x], [y],
    [specialState] and [customScale]: entities that agree on these have
    the same snapshot, whatever their hide lists, committed position or
    callback. *)
Theorem getState_reads (Mobs NPCs Items : Entity.Registry)
    (e e' : Entity.t) :
  Entity.type e = Entity.type e' -> Entity.id e = Entity.id e' ->
  Entity.instance e = Entity.instance e' ->
  Entity.x e = Entity.x e' -> Entity.y e = Entity.y e' ->
  Entity.specialState e = Entity.specialState e' ->
  Entity.customScale e = Entity.customScale e' ->
  Entity.getState Mobs NPCs Items e = Entity.getState Mobs NPCs Items e'.
Proof.
  intros Ht Hid Hi Hx Hy Hs Hc.
  unfold Entity.getState, Entity.getNameColour, Entity.isMob, Entity.isNPC.
  rewrite Ht, Hid, Hi, Hx, Hy, Hs, Hc. reflexivity.
Qed.

Lemma getState_reads_witness :
  Entity.getState mobs noEntries noEntries
    (Entity.updatePosition
       (Entity.addInvisible (Entity.addInvisibleId skeleton 7)
          1%positive observer))
  = Entity.getState mobs noEntries noEntries skeleton.
Proof.
  apply (getState_reads mobs noEntries noEntries); reflexivity.
Defined.

(** ** The store, continued *)

Lemma lookup_written (σ : World.Store) (this : loc) (e : Entity.t)
    (f : Entity.t -> Entity.t) :
  σ !! this = Some e -> alter f this σ = <[this := f e]> σ.
Proof.
  intros Hthis. apply map_eq. intros C.
  destruct (decide (this = C)) as [<-|Hne].
  - rewrite lookup_alter_eq, lookup_insert_eq, Hthis. reflexivity.
  - rewrite lookup_alter_ne, lookup_insert_ne by exact Hne. reflexivity.
Qed.

Lemma setPosition_run (run : Callback -> World.Store -> World.Store)
    (σ : World.Store) (this : loc) (x y : Z) (e : Entity.t) :
  σ !! this = Some e ->
  World.setPosition run this x y σ
  = match Entity.setPositionCallback e with
    | Some callback =>
        run callback (<[this := Entity.set_y y (Entity.set_x x e)]> σ)
    | None => <[this := Entity.set_y y (Entity.set_x x e)]> σ
    end.
Proof.
  intros Hthis. unfold World.setPosition. cbv zeta.
  rewrite (alter_twice_lookup σ this e _ _ Hthis), lookup_insert_eq.
  reflexivity.
Qed.

(** X16: an entity has one callback slot.  After two [onSetPosition]
    calls only the callback registered last is called by [setPosition],
    and registering [undefined] afterwards leaves none to call: the
    result is then the store with the two coordinate writes. *)
Theorem onSetPosition_replaces (run : Callback -> World.Store -> World.Store)
    (σ : World.Store) (this : loc) (x y : Z) (e : Entity.t)
    (first last : Callback) :
  σ !! this = Some e ->
  World.setPosition run this x y
    (World.onSetPosition this (Some last)
       (World.onSetPosition this (Some first) σ))
  = run last
      (<[this := Entity.set_y y (Entity.set_x x
                   (Entity.onSetPosition (Some last) e))]> σ)
  /\ World.setPosition run this x y
       (World.onSetPosition this None
          (World.onSetPosition this (Some first) σ))
     = <[this := Entity.set_y y (Entity.set_x x
                   (Entity.onSetPosition None e))]> σ.
Proof.
  intros Hthis. unfold World.onSetPosition.
  rewrite !(alter_twice_lookup σ this e _ _ Hthis).
  split.
  - rewrite (setPosition_run run _ this x y
               (Entity.onSetPosition (Some last)
                  (Entity.onSetPosition (Some first) e)))
      by apply lookup_insert_eq.
    simpl. rewrite insert_insert_eq. reflexivity.
  - rewrite (setPosition_run run _ this x y
               (Entity.onSetPosition None
                  (Entity.onSetPosition (Some first) e)))
      by apply lookup_insert_eq.
    simpl. rewrite insert_insert_eq. reflexivity.
Qed.

Lemma onSetPosition_replaces_witness :
  World.setPosition commitFirst 1%positive 3 4
    (World.onSetPosition 1%positive None
       (World.onSetPosition 1%positive (Some 0%nat) world)) !! 1%positive
  = Some (Entity.set_y 4 (Entity.set_x 3 observer)).
Proof.
  pose proof (proj2 (onSetPosition_replaces commitFirst world 1%positive 3 4
                       observer 0%nat 0%nat eq_refl)) as H.
  apply (f_equal (fun s : World.Store => s !! 1%positive)) in H.
  exact H.
Defined.

(** X17: while no callback is registered, a later [setPosition]
    overrides an earlier one, the committed cell [(oldX, oldY)] survives
    both, and a following [updatePosition] commits the last cell. *)
Theorem setPosition_twice (run : Callback -> World.Store -> World.Store)
    (σ : World.Store) (this : loc) (x1 y1 x2 y2 : Z) (e : Entity.t) :
  σ !! this = Some e -> Entity.setPositionCallback e = None ->
  let σ2 := World.setPosition run this x2 y2
              (World.setPosition run this x1 y1 σ) in
  σ2 = World.setPosition run this x2 y2 σ
  /\ σ2 !! this = Some (Entity.set_y y2 (Entity.set_x x2 e))
  /\ (Entity.oldX <$> σ2 !! this) = Some (Entity.oldX e)
  /\ (Entity.oldY <$> σ2 !! this) = Some (Entity.oldY e)
  /\ World.updatePosition this σ2 !! this
     = Some (Entity.set_oldY y2 (Entity.set_oldX x2
               (Entity.set_y y2 (Entity.set_x x2 e)))).
Proof.
  intros Hthis Hnone σ2.
  assert (H2 : σ2 = <[this := Entity.set_y y2 (Entity.set_x x2 e)]> σ).
  { subst σ2. rewrite (setPosition_run run σ this x1 y1 e Hthis), Hnone.
    rewrite (setPosition_run run _ this x2 y2
               (Entity.set_y y1 (Entity.set_x x1 e)))
      by apply lookup_insert_eq.
    simpl. rewrite Hnone, insert_insert_eq. reflexivity. }
  rewrite H2, (setPosition_run run σ this x2 y2 e Hthis), Hnone.
  unfold World.updatePosition.
  rewrite lookup_alter_eq, lookup_insert_eq. repeat split.
Qed.

Lemma setPosition_twice_witness :
  World.setPosition commitFirst 2%positive 7 8
    (World.setPosition commitFirst 2%positive 3 4 world)
  = World.setPosition commitFirst 2%positive 7 8 world.
Proof.
  apply (setPosition_twice commitFirst world 2%positive 3 4 7 8 skeleton);
    reflexivity.
Defined.

Lemma removeInvisible_addInvisible_free (o t u : Entity.t) (ref : loc) :
  Entity.hasInvisible o t = false ->
  Entity.instance u = Entity.instance t ->
  Entity.removeInvisible (Entity.addInvisible o ref t) u = o.
Proof.
  intros Hfree Hu. apply hasInvisible_false in Hfree.
  unfold Entity.removeInvisible, Entity.addInvisible, Entity.set_invisibles.
  simpl. rewrite Hu, (delete_insert_id _ _ _ Hfree).
  destruct o; reflexivity.
Qed.

(** X18: in the store, [A.addInvisible(B)] followed by
    [A.removeInvisible(B)] gives back the very same store when [A] did
    not hide [B] before, also when [A] and [B] are one and the same
    entity. *)
Theorem world_hide_unhide (σ : World.Store) (A B : loc) (a b : Entity.t) :
  σ !! A = Some a -> σ !! B = Some b ->
  Entity.hasInvisible a b = false ->
  World.removeInvisible A B (World.addInvisible A B σ) = σ.
Proof.
  intros HA HB Hfree.
  rewrite (addInvisible_store σ A B a b HA HB).
  unfold World.removeInvisible.
  assert (Hb : exists b' : Entity.t,
    <[A := Entity.addInvisible a B b]> σ !! B = Some b'
    /\ Entity.instance b' = Entity.instance b).
  { destruct (decide (A = B)) as [->|Hne].
    - rewrite lookup_insert_eq. eexists; split; [reflexivity|].
      simpl. congruence.
    - rewrite lookup_insert_ne by exact Hne. eauto. }
  destruct Hb as (b' & -> & Hinst).
  rewrite (lookup_written _ A (Entity.addInvisible a B b))
    by apply lookup_insert_eq.
  rewrite (removeInvisible_addInvisible_free a b b' B Hfree Hinst).
  rewrite insert_insert_eq. apply insert_id, HA.
Qed.

Lemma world_hide_unhide_witness :
  World.removeInvisible 1%positive 1%positive
    (World.addInvisible 1%positive 1%positive world) = world
  /\ World.removeInvisible 1%positive 2%positive
       (World.addInvisible 1%positive 2%positive world) = world.
Proof.
  split.
  - apply (world_hide_unhide world 1%positive 1%positive observer observer);
      reflexivity.
  - apply (world_hide_unhide world 1%positive 2%positive observer skeleton);
      reflexivity.
Defined.

(** * Properties of the [Audio] class *)








Lemma parse_audibles {Element} `{Audio.Dom Element}
    (path name : string) (channels : Z) (this : Audio.t Element) :
  let sound :=
    Audio.element_load
      (Audio.set_src
         (String.append path
            (String.append name (String.append "." (Audio.format this))))
         (Audio.setAttribute "autobuffer" "true"
            (Audio.set_preload "auto"
               (Audio.addEventListener "error"
                  (Audio.addEventListener "canplaythrough"
                     (Audio.createElement "audio")))))) in
  Audio.audibles (Audio.parse path name channels this)
  = <[name := Some (sound :: replicate (Z.to_nat (channels - 1))
                               (Audio.cloneNode true sound))]>
      (Audio.audibles this).
Proof.
  intros sound. unfold Audio.parse. cbv zeta. fold sound.
  set (start := Audio.set_audibles
                  (<[name := Some [sound]]> (Audio.audibles this)) this).
  set (step := fun this0 : Audio.t Element =>
                 Audio.set_audibles
                   (alter (fmap (fun l => push l (Audio.cloneNode true sound)))
                      name (Audio.audibles this0)) this0).
  assert (Hloop : forall k : nat,
    Audio.audibles (Nat.iter k step start)
    = <[name := Some (sound :: replicate k (Audio.cloneNode true sound))]>
        (Audio.audibles this)).
  { induction k as [|k IH]; [reflexivity|].
    simpl. rewrite IH, alter_insert_eq. simpl. unfold push.
    rewrite <- app_comm_cons, <- replicate_S_end. reflexivity. }
  unfold Audio.times.
  destruct (Audio.hasKey _ name); [|destruct (Audio.hasKey _ name)];
    simpl; apply Hloop.
Qed.

(** X21: after [parse], the entry of [name] in [audibles] is a new array
    made of the element set up for [path + name + "." + format] followed
    by [channels - 1] clones of it, so it has [channels] elements, and
    one when [channels] is 1 or less; what was stored under [name]
    before is dropped, and the entries of all other names are as
    before. *)
Theorem parse_channels {Element} `{Audio.Dom Element}
    (path name other : string) (channels : Z) (this : Audio.t Element) :
  let sound :=
    Audio.element_load
      (Audio.set_src
         (String.append path
            (String.append name (String.append "." (Audio.format this))))
         (Audio.setAttribute "autobuffer" "true"
            (Audio.set_preload "auto"
               (Audio.addEventListener "error"
                  (Audio.addEventListener "canplaythrough"
                     (Audio.createElement "audio")))))) in
  let array := sound :: replicate (Z.to_nat (channels - 1))
                          (Audio.cloneNode true sound) in
  Audio.audibles (Audio.parse path name channels this) !! name
  = Some (Some array)
  /\ Z.of_nat (List.length array) = Z.max 1 channels
  /\ (other <> name ->
      Audio.audibles (Audio.parse path name channels this) !! other
      = Audio.audibles this !! other).
Proof.
  intros sound array. rewrite (parse_audibles path name channels this).
  fold sound. fold array.
  split; [apply lookup_insert_eq|]. split.
  - subst array. simpl. rewrite length_replicate. lia.
  - intros Hne. apply lookup_insert_ne. congruence.
Qed.

Lemma parse_channels_witness :
  Audio.audibles
    (Audio.parse "audio/sounds/" "hit1" 4 (mixer [finished])) !! "loot"
  = Audio.audibles (mixer [finished]) !! "loot".
Proof.
  apply (proj2 (proj2 (parse_channels "audio/sounds/" "hit1" "loot" 4
                         (mixer [finished])))).
  discriminate.
Defined.

(** ** Choosing a channel *)

Lemma findIndex_Some {A} (p : A -> bool) (l : list A) (i : nat) :
  Audio.findIndex p l = Some i ->
  exists a : A,
    l !! i = Some a /\ p a = true
    /\ forall (j : nat) (b : A), (j < i)%nat -> l !! j = Some b -> p b = false.
Proof.
  revert i. induction l as [|a l IH]; intros i Hf; simpl in Hf; [discriminate|].
  destruct (p a) eqn:Hp.
  - injection Hf as <-. exists a. split; [reflexivity|]. split; [exact Hp|].
    intros j b Hj. lia.
  - destruct (Audio.findIndex p l) as [k|] eqn:Hk; [|discriminate].
    injection Hf as <-. destruct (IH k eq_refl) as (c & Hc & Hpc & Hbefore).
    exists c. split; [exact Hc|]. split; [exact Hpc|].
    intros [|j] b Hj Hb; simpl in Hb.
    + injection Hb as <-. exact Hp.
    + apply (Hbefore j b); [lia | exact Hb].
Qed.

(** What [get] answers on an array: the first channel that has ended or
    is paused when that channel has ended, the first channel otherwise. *)
Lemma get_result {Element} `{Audio.Dom Element} (name : string)
    (this : Audio.t Element) (l : list Element) :
  Audio.audibles this !! name = Some (Some l) ->
  (Audio.get name this).1
  = match Audio.findIndex (fun a => Audio.ended a || Audio.paused a) l with
    | Some i =>
        match l !! i with
        | Some song => if Audio.ended song then Some i else Some 0%nat
        | None => Some 0%nat
        end
    | None => match l with [] => None | _ :: _ => Some 0%nat end
    end.
Proof.
  intros Hl. unfold Audio.get. rewrite Hl.
  destruct (Audio.findIndex _ l) as [i|] eqn:Hf; [|destruct l; reflexivity].
  destruct (findIndex_Some _ _ _ Hf) as (a & Ha & _ & _).
  rewrite Ha. destruct (Audio.ended a); [reflexivity|].
  destruct l; [discriminate Ha | reflexivity].
Qed.

Lemma get_result_bound {Element} `{Audio.Dom Element} (name : string)
    (this : Audio.t Element) (l : list Element) :
  Audio.audibles this !! name = Some (Some l) -> l <> [] ->
  exists i : nat, (Audio.get name this).1 = Some i
                  /\ (i < List.length l)%nat.
Proof.
  intros Hl Hne. rewrite (get_result name this l Hl).
  assert (H0 : (0 < List.length l)%nat).
  { destruct l; [congruence | simpl; lia]. }
  destruct (Audio.findIndex _ l) as [i|] eqn:Hf.
  - destruct (findIndex_Some _ _ _ Hf) as (a & Ha & _ & _).
    rewrite Ha. destruct (Audio.ended a); eexists; split;
      try reflexivity; [apply (lookup_lt_Some _ _ _ Ha) | exact H0].
  - destruct l; [congruence|]. eexists; split; [reflexivity | exact H0].
Qed.

(** X22: on a name with an array of channels, [get] answers [undefined]
    only for an empty array.  It answers a channel other than the first
    only when that channel has ended and every channel before it is
    playing (neither ended nor paused).  In particular, while no channel
    after the first has ended, the answer is the first channel, also
    when that one is playing and later ones are paused.  The call leaves
    the two tables, the other names and the number of channels as they
    were. *)
Theorem get_selection {Element} `{Audio.Dom Element} (name : string)
    (this : Audio.t Element) (l : list Element) :
  Audio.audibles this !! name = Some (Some l) ->
  ((Audio.get name this).1 = None <-> l = [])
  /\ (forall i : nat, (Audio.get name this).1 = Some i ->
        (i < List.length l)%nat
        /\ (i = 0%nat
            \/ exists song : Element,
                 l !! i = Some song /\ Audio.ended song = true
                 /\ forall (j : nat) (a : Element),
                      (j < i)%nat -> l !! j = Some a ->
                      Audio.ended a = false /\ Audio.paused a = false))
  /\ ((forall (j : nat) (a : Element),
         (0 < j)%nat -> l !! j = Some a -> Audio.ended a = false) ->
      l <> [] -> (Audio.get name this).1 = Some 0%nat)
  /\ Audio.music (Audio.get name this).2 = Audio.music this
  /\ Audio.sounds (Audio.get name this).2 = Audio.sounds this
  /\ (forall other : string, other <> name ->
        Audio.audibles (Audio.get name this).2 !! other
        = Audio.audibles this !! other)
  /\ option_map (option_map (@List.length Element))
       (Audio.audibles (Audio.get name this).2 !! name)
     = Some (Some (List.length l)).
Proof.
  intros Hl.
  pose proof (get_result name this l Hl) as Hres.
  split; [|split; [|split]].
  - rewrite Hres.
    destruct (Audio.findIndex _ l) as [i|] eqn:Hf.
    + destruct (findIndex_Some _ _ _ Hf) as (a & Ha & _ & _).
      rewrite Ha.
      destruct (Audio.ended a); (split; [discriminate|]);
        intros ->; discriminate Ha.
    + destruct l; split; congruence.
  - intros i Hi. rewrite Hres in Hi.
    destruct (Audio.findIndex _ l) as [k|] eqn:Hf.
    + destruct (findIndex_Some _ _ _ Hf) as (a & Ha & Hpa & Hbefore).
      rewrite Ha in Hi.
      assert (H0 : (0 < List.length l)%nat)
        by (destruct l; [discriminate Ha | simpl; lia]).
      destruct (Audio.ended a) eqn:He; injection Hi as <-.
      * split; [apply (lookup_lt_Some _ _ _ Ha)|].
        right. exists a. split; [exact Ha|]. split; [exact He|].
        intros j b Hj Hb. apply orb_false_iff. apply (Hbefore j b Hj Hb).
      * split; [exact H0 | left; reflexivity].
    + destruct l; [discriminate Hi|]. injection Hi as <-.
      split; [simpl; lia | left; reflexivity].
  - intros Hlater Hne. rewrite Hres.
    destruct (Audio.findIndex _ l) as [k|] eqn:Hf.
    + destruct (findIndex_Some _ _ _ Hf) as (a & Ha & _ & _).
      rewrite Ha. destruct (Audio.ended a) eqn:He; [|reflexivity].
      destruct k as [|k]; [reflexivity|].
      rewrite (Hlater (S k) a) in He; [discriminate | lia | exact Ha].
    + destruct l; [congruence | reflexivity].
  - unfold Audio.get. rewrite Hl.
    destruct (Audio.findIndex _ l) as [i|] eqn:Hf.
    + destruct (findIndex_Some _ _ _ Hf) as (a & Ha & _ & _).
      rewrite Ha. destruct (Audio.ended a); simpl.
      * split; [reflexivity|]. split; [reflexivity|]. split.
        -- intros other Hne. apply lookup_insert_ne. congruence.
        -- rewrite lookup_insert_eq. simpl. rewrite length_insert. reflexivity.
      * split; [reflexivity|]. split; [reflexivity|].
        split; [reflexivity|]. rewrite Hl. reflexivity.
    + simpl. split; [reflexivity|]. split; [reflexivity|].
      split; [reflexivity|]. rewrite Hl. reflexivity.
Qed.

Lemma get_selection_witness :
  (Audio.get "hit1" (mixer [playing; idle; idle; idle])).1 = Some 0%nat.
Proof.
  apply (proj1 (proj2 (proj2
           (get_selection "hit1" (mixer [playing; idle; idle; idle])
              [playing; idle; idle; idle] eq_refl)))).
  - intros [|[|[|[|j]]]] a Hj Ha; simpl in Ha;
      first [discriminate Ha | injection Ha as <-; reflexivity].
  - discriminate.
Defined.

(** X23: a name that was parsed can be fetched: right after [parse],
    [get] on the same name answers one of the channels just created,
    never [null] or [undefined]. *)
Theorem get_after_parse {Element} `{Audio.Dom Element}
    (path name : string) (channels : Z) (this : Audio.t Element) :
  match (Audio.get name (Audio.parse path name channels this)).1 with
  | Some i => Z.of_nat i < Z.max 1 channels
  | None => False
  end.
Proof.
  pose proof (parse_audibles path name channels this) as Hp. cbv zeta in Hp.
  match type of Hp with
  | _ = <[name := Some ?l]> _ =>
      destruct (get_result_bound name (Audio.parse path name channels this) l)
        as (i & -> & Hi)
  end.
  - rewrite Hp. apply lookup_insert_eq.
  - discriminate.
  - simpl in Hi. rewrite length_replicate in Hi. lia.
Qed.

(** * Further properties of the class, continued *)

(** X24: radii add up along a chain: if [b] is within [r] of [a] and [c]
    within [s] of [b], then [c] is within [r + s] of [a]. *)
Theorem isNear_chain (a b c : Entity.t) (r s : Z) :
  Entity.isNear a b r = true -> Entity.isNear b c s = true ->
  Entity.isNear a c (r + s) = true.
Proof.
  rewrite !isNear_axes. lia.
Qed.

Lemma isNear_chain_witness :
  Entity.isNear (cell 0 0) (cell 5 (-4)) (2 + 3) = true.
Proof.
  apply (isNear_chain (cell 0 0) (cell 2 (-1)) (cell 5 (-4)) 2 3);
    reflexivity.
Defined.

(** X25: the four type tests exclude one another: no entity answers
    true to two of [isMob], [isNPC], [isItem] and [isPlayer], and an
    entity whose type is none of the four strings answers false to
    all. *)
Theorem type_tests_exclusive (e : Entity.t) :
  (Nat.b2n (Entity.isMob e) + Nat.b2n (Entity.isNPC e)
   + Nat.b2n (Entity.isItem e) + Nat.b2n (Entity.isPlayer e) <= 1)%nat
  /\ (Entity.isMob e || Entity.isNPC e || Entity.isItem e
      || Entity.isPlayer e
      = bool_decide (Entity.type e ∈ ["mob"; "npc"; "item"; "player"])).
Proof.
  unfold Entity.isMob, Entity.isNPC, Entity.isItem, Entity.isPlayer.
  destruct (String.eqb_spec (Entity.type e) "mob") as [->|Hm];
    [split; reflexivity|].
  destruct (String.eqb_spec (Entity.type e) "npc") as [->|Hn];
    [split; reflexivity|].
  destruct (String.eqb_spec (Entity.type e) "item") as [->|Hi];
    [split; reflexivity|].
  destruct (String.eqb_spec (Entity.type e) "player") as [->|Hp];
    [split; reflexivity|].
  split; [simpl; lia|].
  symmetry. apply bool_decide_eq_false. intros Hin.
  repeat (apply elem_of_cons in Hin as [Heq|Hin]; [congruence|]).
  apply elem_of_nil in Hin. exact Hin.
Qed.
